(** * daomop/stationary.py: marking stationary sources

    A shallow embedding of [run], [match] and [split_to_hpx] of
    src/daomop/stationary.py, and the properties of the catalogue
    cross-matching and sharded-merge engine stated about them.

    Tables (astropy tables) are lists of rows, VOSpace is a record of finite
    maps, exceptions are values of [Exn] carried by [Result].  The modules
    [storage] and [util] the script imports are not part of the sources: what
    the script needs of them is either a member of the class [Services] (the
    matcher, the HEALPix indexing, the footprint test, the cone search) or a
    small model of the store written from the specification. *)

From Stdlib Require Import QArith Qround ZArith DecimalString Sorted.
From stdpp Require Import gmap strings list fin_maps.

Open Scope string_scope.
Open Scope list_scope.
Open Scope Z_scope.

(** ** Rows and tables *)

(** One row of a source catalogue, with the columns the script reads or
    creates.  Floats are rationals. *)
Record Row := mkRow {
  X_WORLD : Q;
  Y_WORLD : Q;
  HEALPIX : Z;
  HPXID : Z;
  MATCHES : Z;
  OVERLAPS : Z;
  dataset_name : string;
  mid_mjdate : Q
}.

Definition set_HEALPIX (v : Z) (r : Row) : Row :=
  mkRow (X_WORLD r) (Y_WORLD r) v (HPXID r) (MATCHES r) (OVERLAPS r)
        (dataset_name r) (mid_mjdate r).
Definition set_HPXID (v : Z) (r : Row) : Row :=
  mkRow (X_WORLD r) (Y_WORLD r) (HEALPIX r) v (MATCHES r) (OVERLAPS r)
        (dataset_name r) (mid_mjdate r).
Definition set_MATCHES (v : Z) (r : Row) : Row :=
  mkRow (X_WORLD r) (Y_WORLD r) (HEALPIX r) (HPXID r) v (OVERLAPS r)
        (dataset_name r) (mid_mjdate r).
Definition set_OVERLAPS (v : Z) (r : Row) : Row :=
  mkRow (X_WORLD r) (Y_WORLD r) (HEALPIX r) (HPXID r) (MATCHES r) v
        (dataset_name r) (mid_mjdate r).
Definition set_dataset_name (v : string) (r : Row) : Row :=
  mkRow (X_WORLD r) (Y_WORLD r) (HEALPIX r) (HPXID r) (MATCHES r) (OVERLAPS r)
        v (mid_mjdate r).
Definition set_mid_mjdate (v : Q) (r : Row) : Row :=
  mkRow (X_WORLD r) (Y_WORLD r) (HEALPIX r) (HPXID r) (MATCHES r) (OVERLAPS r)
        (dataset_name r) v.

(** [numpy.transpose((table['X_WORLD'], table['Y_WORLD']))] *)
Definition positions (tbl : list Row) : list (Q * Q) :=
  map (λ r, (X_WORLD r, Y_WORLD r)) tbl.

(** [numpy.unique]: the distinct values, in increasing order. *)
Fixpoint insert_unique (x : Z) (l : list Z) : list Z :=
  match l with
  | [] => [x]
  | y :: t =>
      if x <? y then x :: l
      else if x =? y then l
      else y :: insert_unique x t
  end.

Definition unique (l : list Z) : list Z := foldr insert_unique [] l.

(** ** Exceptions *)

Inductive Exn :=
| OSError (errno : Z) (msg : string)
| IOError (msg : string)
| KeyError (key : string)
| IndexError (msg : string)
| OtherError (msg : string).

Definition ENOENT : Z := 2.

Definition str_int (z : Z) : string := NilZero.string_of_int (Z.to_int z).

(** [str(e)] *)
Definition str (e : Exn) : string :=
  match e with
  | OSError n m => "[Errno " +:+ str_int n +:+ "] " +:+ m
  | IOError m => m
  | KeyError k => "'" +:+ k +:+ "'"
  | IndexError m => m
  | OtherError m => m
  end.

Inductive Result (A : Type) :=
| Ok (a : A)
| Raise (e : Exn).
Arguments Ok {A} a.
Arguments Raise {A} e.

#[global] Instance Result_ret : MRet Result := λ A a, Ok a.
#[global] Instance Result_bind : MBind Result := λ A B f m,
  match m with
  | Ok a => f a
  | Raise e => Raise e
  end.

#[global] Instance Result_fmap : FMap Result := λ A B f m,
  match m with
  | Ok a => Ok (f a)
  | Raise e => Raise e
  end.

(** [except OSError as ex: if ex.errno == errno.ENOENT] *)
Definition is_ENOENT (e : Exn) : bool :=
  match e with
  | OSError n _ => n =? ENOENT
  | _ => false
  end.

(** ** numpy index arithmetic *)

(** A masked index array ([numpy.ma]): [None] is a masked entry. *)
Definition in_range (n : nat) (idx : list (option nat)) : bool :=
  forallb (λ o, match o with Some i => (i <? n)%nat | None => true end) idx.

(** The value written at position [k] by [col[idx.data[~idx.mask]] = vals[~idx.mask]]:
    the value paired with the last unmasked entry equal to [k]. *)
Fixpoint last_assigned (k : nat) (idx : list (option nat)) (vals : list Z) : option Z :=
  match idx, vals with
  | o :: idx', v :: vals' =>
      match last_assigned k idx' vals' with
      | Some v' => Some v'
      | None => if bool_decide (o = Some k) then Some v else None
      end
  | _, _ => None
  end.

(** [catalog.table['HPXID'][idx2.data[~idx2.mask]] = hpx_cat.table['HPXID'][~idx2.mask]] *)
Definition assign_matched (idx2 : list (option nat)) (hpx : list Row)
    (tbl : list Row) : Result (list Row) :=
  if (length idx2 =? length hpx)%nat && in_range (length tbl) idx2 then
    Ok (imap (λ k r, match last_assigned k idx2 (map HPXID hpx) with
                     | Some v => set_HPXID v r
                     | None => r
                     end) tbl)
  else Raise (IndexError "index out of bounds").

(** [cond = numpy.all((HPXID < 0, HEALPIX == healpix), axis=0)], row by row *)
Definition to_number (healpix : Z) (r : Row) : bool :=
  (HPXID r <? 0) && (HEALPIX r =? healpix).

(** [catalog.table['HPXID'][cond] = hpx_cat_len + numpy.arange(cond.sum())] *)
Fixpoint number_from (next : Z) (healpix : Z) (tbl : list Row) : list Row :=
  match tbl with
  | [] => []
  | r :: t =>
      if to_number healpix r
      then set_HPXID next r :: number_from (next + 1) healpix t
      else r :: number_from next healpix t
  end.

(** [catalog.table['MATCHES'][idx2.data[~idx2.mask]] += 1]: every selected
    row is incremented once, however often its index occurs. *)
Definition increment_matches (idx2 : list (option nat)) (tbl : list Row)
    : Result (list Row) :=
  if in_range (length tbl) idx2 then
    Ok (imap (λ k r, if bool_decide (Some k ∈ idx2)
                     then set_MATCHES (MATCHES r + 1) r else r) tbl)
  else Raise (IndexError "index out of bounds").





(** lines 71-72: drop the rows of [dataset], then [vstack] the new rows. *)
Definition merge (shard : list Row) (dataset : string) (newRows : list Row) : list Row :=
  filter (λ r, dataset_name r ≠ dataset) shard ++ newRows.

(** The rows of a shard that belong to [dataset]. *)
Definition dataset_rows (dataset : string) (shard : list Row) : list Row :=
  filter (λ r, dataset_name r = dataset) shard.

(** [catalog.table[catalog.table['HEALPIX'] == pix]] *)
Definition rows_of_pixel (pix : Z) (tbl : list Row) : list Row :=
  filter (λ r, HEALPIX r = pix) tbl.

(** ** The store *)

Inductive Artifact :=
| ACatalog (expnum : string) (ccd : Z)
| AImage (expnum : string) (ccd : Z)
| AShard (pixel : Z).

Inductive Event :=
| EvMatch (expnum : string) (ccd : Z)
| EvPut (pixel : Z)
| EvSetStatus (task : string) (msg : string).

Definition task : string := "stationary".

(** Modelled from the spec: [storage.SUCCESS], the status value of a task that
    succeeded (storage.py is not part of the sources). *)
Definition SUCCESS : string := "success".

Definition tolerance : Q := ((1 # 2) / (3600 # 1))%Q.

(** [image.header] and [image.polygon] of a [storage.Image]. *)
Record Image (Polygon : Type) := mkImage {
  header_MJDATE : option Q;
  header_EXPTIME : option Q;
  polygon : Polygon
}.
Arguments mkImage {Polygon} _ _ _.
Arguments header_MJDATE {Polygon} _.
Arguments header_EXPTIME {Polygon} _.
Arguments polygon {Polygon} _.

(** A [storage.FitsTable] held in memory. *)
Record FitsTable := mkFitsTable {
  observation : string;
  ccd : Z;
  version : string;
  table : list Row
}.

(** VOSpace, and the trace of what a run did. *)
Record World (Polygon : Type) := mkWorld {
  catalogs : gmap (string * Z) (list Row);
  images : gmap (string * Z) (Image Polygon);
  shards : gmap Z (list Row);
  statuses : gmap (string * string * string * string * Z) string;
  events : list Event
}.
Arguments mkWorld {Polygon} _ _ _ _ _.
Arguments catalogs {Polygon} _.
Arguments images {Polygon} _.
Arguments shards {Polygon} _.
Arguments statuses {Polygon} _.
Arguments events {Polygon} _.

Definition log {Polygon} (ev : Event) (w : World Polygon) : World Polygon :=
  mkWorld (catalogs w) (images w) (shards w) (statuses w) (events w ++ [ev]).

(** ** The collaborators

    What [storage] and [util] provide and the script does not define. *)
Class Services (Polygon : Type) := {
  (** the point-in-footprint test of [storage.MyPolygon] *)
  isInside : Polygon → Q → Q → bool;
  (** [polygon.cone_search(runids=storage.RUNIDS, minimum_time=2.0/24.0, mjdate=...)] *)
  cone_search : Polygon → option Q → Result (list (string * Z));
  (** [util.skycoord_to_healpix], row by row *)
  skycoord_to_healpix : Q → Q → Z;
  (** [util.match_lists(p1, p2, tolerance)]: the pair [(idx1, idx2)] of masked
      index arrays; [idx2] has, for each row of [p2], its partner in [p1] *)
  match_lists :
    list (Q * Q) → list (Q * Q) → Q → list (option nat) * list (option nat);
  (** a retrieval that fails for a reason other than absence *)
  fault : Artifact → option Exn;
  (** the module variable [dependency] ([None] in the script) *)
  dependency : option string;
  (** [storage.Observation(expnum).dataset_name] and the [version] attribute
      of a [storage.FitsTable] built without one *)
  observation_dataset_name : string → string;
  catalog_version : string
}.

Section Stationary.

Context {Polygon : Type} {svc : Services Polygon}.

(** Modelled from the spec: [storage.get_status], true when the recorded
    status of the task is success (storage.py is not part of the sources). *)
Definition get_status (w : World Polygon) (task prefix expnum version : string) (ccd : Z) : bool :=
  bool_decide (statuses w !! (task, prefix, expnum, version, ccd) = Some SUCCESS).

(** Modelled from the spec: [storage.set_status], which records the status
    of the task (storage.py is not part of the sources). *)
Definition set_status (w : World Polygon) (task prefix expnum version : string) (ccd : Z)
    (status : string) : World Polygon :=
  mkWorld (catalogs w) (images w) (shards w)
          (<[(task, prefix, expnum, version, ccd) := status]> (statuses w))
          (events w ++ [EvSetStatus task status]).

(** Modelled from the spec: the retrieval of a stored artifact, which
    distinguishes absence ([OSError] with [ENOENT]) from other failures
    (storage.py is not part of the sources). *)
Definition retrieve {A} (a : Artifact) (stored : option A) : Result A :=
  match fault a with
  | Some e => Raise e
  | None =>
      match stored with
      | Some x => Ok x
      | None => Raise (OSError ENOENT "No such file or directory")
      end
  end.

(** [storage.FitsTable(storage.Observation(expnum), ccd=ccd, ext='.cat.fits').table] *)
Definition get_catalog (w : World Polygon) (expnum : string) (ccd : Z) : Result (list Row) :=
  retrieve (ACatalog expnum ccd) (catalogs w !! (expnum, ccd)).

(** [storage.Image(storage.Observation(expnum), ccd=ccd)] *)
Definition get_image (w : World Polygon) (expnum : string) (ccd : Z) : Result (Image Polygon) :=
  retrieve (AImage expnum ccd) (images w !! (expnum, ccd)).

(** [storage.HPXCatalog(pixel=pix).get()] *)
Definition get_shard (w : World Polygon) (pix : Z) : Result (list Row) :=
  retrieve (AShard pix) (shards w !! pix).

(** Modelled from the spec: [healpix_catalog.write(); healpix_catalog.put()],
    which persists the full shard, replacing any prior version (storage.py
    is not part of the sources). *)
Definition put_shard (w : World Polygon) (pix : Z) (rows : list Row) : World Polygon :=
  mkWorld (catalogs w) (images w) (<[pix := rows]> (shards w)) (statuses w)
          (events w ++ [EvPut pix]).

(** *** [match], lines 103-121: one turn of the HPXID loop *)
Definition assign_pixel (w : World Polygon) (p1 : list (Q * Q)) (tbl : list Row)
    (healpix : Z) : Result (list Row) :=
  '(tbl1, hpx_cat_len) ←
    match get_shard w healpix with
    | Ok hpx =>
        let p2 := positions hpx in
        let '(idx1, idx2) := match_lists p1 p2 tolerance in
        tbl1 ← assign_matched idx2 hpx tbl;
        Ok (tbl1, Z.of_nat (length hpx))
    | Raise ose => if is_ENOENT ose then Ok (tbl, 0) else Raise ose
    end;
  Ok (number_from hpx_cat_len healpix tbl1).

Fixpoint build_hpxid (w : World Polygon) (p1 : list (Q * Q)) (pixels : list Z)
    (tbl : list Row) : Result (list Row) :=
  match pixels with
  | [] => Ok tbl
  | healpix :: rest =>
      tbl1 ← assign_pixel w p1 tbl healpix;
      build_hpxid w p1 rest tbl1
  end.

(** [catalog.table['OVERLAPS'] += [polygon.isInside(x, y) for row in catalog.table]] *)
Definition add_overlaps (poly : Polygon) (tbl : list Row) : list Row :=
  map (λ r, if isInside poly (X_WORLD r) (Y_WORLD r)
            then set_OVERLAPS (OVERLAPS r + 1) r else r) tbl.

(** *** [match], lines 125-141: one turn of the candidate loop *)
Definition try_candidate (w : World Polygon) (p1 : list (Q * Q)) (tbl : list Row)
    (match_set : string * Z) : Result (list Row) :=
  match_catalog ← get_catalog w match_set.1 match_set.2;
  match_image ← get_image w match_set.1 match_set.2;
  let p2 := positions match_catalog in
  let '(idx1, idx2) := match_lists p1 p2 tolerance in
  tbl1 ← increment_matches idx2 tbl;
  Ok (add_overlaps (polygon match_image) tbl1).

Definition match_candidate (w : World Polygon) (p1 : list (Q * Q)) (tbl : list Row)
    (match_set : string * Z) : Result (list Row) :=
  match try_candidate w p1 tbl match_set with
  | Ok tbl1 => Ok tbl1
  | Raise ioe => if is_ENOENT ioe then Ok tbl else Raise ioe
  end.

Fixpoint count_matches (w : World Polygon) (p1 : list (Q * Q)) (match_list : list (string * Z))
    (tbl : list Row) : Result (list Row) :=
  match match_list with
  | [] => Ok tbl
  | match_set :: rest =>
      tbl1 ← match_candidate w p1 tbl match_set;
      count_matches w p1 rest tbl1
  end.

(** [catalog.table['MATCHES'] = 0; catalog.table['OVERLAPS'] = 0] *)
Definition reset_counts (tbl : list Row) : list Row :=
  map (set_OVERLAPS 0) (map (set_MATCHES 0) tbl).

(** The same, for one row. *)
Definition erase (r : Row) : Row := set_OVERLAPS 0 (set_MATCHES 0 r).

(** A row without its identifier. *)
Definition drop_id (r : Row) : Row := set_HPXID 0 r.


(** [catalog.table['HEALPIX'] = util.skycoord_to_healpix(ra_dec)] *)
Definition pixelate (tbl : list Row) : list Row :=
  map (λ r, set_HEALPIX (skycoord_to_healpix (X_WORLD r) (Y_WORLD r)) r) tbl.

(** [catalog.table['HPXID'] = -1] *)
Definition unassigned (tbl : list Row) : list Row := map (set_HPXID (-1)) tbl.

(** *** [match(expnum, ccd)] *)
Definition match_ (w : World Polygon) (expnum : string) (ccd : Z) : Result FitsTable :=
  image ← get_image w expnum ccd;
  match_list ← cone_search (polygon image) (header_MJDATE image);
  tbl ← get_catalog w expnum ccd;
  let tbl1 := pixelate tbl in
  let p1 := positions tbl1 in
  let tbl2 := unassigned tbl1 in
  tbl3 ← build_hpxid w p1 (unique (map HEALPIX tbl2)) tbl2;
  tbl4 ← count_matches w p1 match_list (reset_counts tbl3);
  Ok (mkFitsTable expnum ccd catalog_version tbl4).







(** *** [split_to_hpx(catalog)], lines 67-81: one turn of the pixel loop *)
Definition put_pixel (ds : string) (tbl : list Row) (w : World Polygon) (pix : Z)
    : World Polygon * Result unit :=
  match get_shard w pix with
  | Ok hpx => (put_shard w pix (merge hpx ds (rows_of_pixel pix tbl)), Ok tt)
  | Raise ex =>
      if is_ENOENT ex then (put_shard w pix (rows_of_pixel pix tbl), Ok tt)
      else (w, Raise ex)
  end.

(** What a turn of the pixel loop that succeeds leaves in the shard. *)
Definition written (ds : string) (tbl : list Row) (w : World Polygon) (pix : Z) : list Row :=
  match get_shard w pix with
  | Ok hpx => merge hpx ds (rows_of_pixel pix tbl)
  | Raise _ => rows_of_pixel pix tbl
  end.

Fixpoint put_pixels (ds : string) (tbl : list Row) (pixels : list Z) (w : World Polygon)
    : World Polygon * Result unit :=
  match pixels with
  | [] => (w, Ok tt)
  | pix :: rest =>
      match put_pixel ds tbl w pix with
      | (w1, Ok _) => put_pixels ds tbl rest w1
      | (w1, Raise ex) => (w1, Raise ex)
      end
  end.

(** [image.header['MJDATE'] + image.header['EXPTIME']/24./3600.0] *)
Definition mid_mjdate_of (image : Image Polygon) : Result Q :=
  match header_MJDATE image with
  | None => Raise (KeyError "MJDATE")
  | Some mjdate =>
      match header_EXPTIME image with
      | None => Raise (KeyError "EXPTIME")
      | Some exptime => Ok (mjdate + exptime / (24 # 1) / (3600 # 1))%Q
      end
  end.

(** The table of [catalog] once lines 62-65 have filled its two columns. *)
Definition stamp (ds : string) (mid : Q) (tbl : list Row) : list Row :=
  map (set_mid_mjdate mid) (map (set_dataset_name ds) tbl).

Definition split_to_hpx (w : World Polygon) (catalog : FitsTable) : World Polygon * Result unit :=
  let ds := observation_dataset_name (observation catalog)
            +:+ version catalog +:+ str_int (ccd catalog) in
  match get_image w (observation catalog) (ccd catalog) with
  | Raise e => (w, Raise e)
  | Ok image =>
      match mid_mjdate_of image with
      | Raise e => (w, Raise e)
      | Ok mid =>
          let tbl := stamp ds mid (table catalog) in
          put_pixels ds tbl (unique (map HEALPIX tbl)) w
      end
  end.

(** [dependency is not None and not storage.get_status(dependency, prefix, expnum, "p", ccd=ccd)] *)
Definition unmet (w : World Polygon) (prefix expnum : string) (ccd : Z) : bool :=
  match dependency with
  | Some dep => negb (get_status w dep prefix expnum "p" ccd)
  | None => false
  end.

(** *** [run], lines 35-48: the body of the [try] *)
Definition attempt (w : World Polygon) (expnum : string) (ccd : Z) (prefix : string)
    : World Polygon * Result unit :=
  if unmet w prefix expnum ccd then
    (w, Raise (IOError (default "" dependency +:+ " not yet run for " +:+ expnum)))
  else
    let w1 := log (EvMatch expnum ccd) w in
    match match_ w1 expnum ccd with
    | Raise e => (w1, Raise e)
    | Ok catalog => split_to_hpx w1 catalog
    end.

(** *** [run(expnum, ccd, prefix, version, dry_run, force)]

    [storage.LoggingManager] only collects the log of the run and is left
    out, as are the calls of [logging]. *)
Definition run (w : World Polygon) (expnum : string) (ccd : Z) (prefix version : string)
    (dry_run force : bool) : World Polygon :=
  if get_status w task prefix expnum version ccd && negb force then w
  else
    match attempt w expnum ccd prefix with
    | (w1, Ok _) =>
        if dry_run then w1
        else set_status w1 task prefix expnum version ccd SUCCESS
    | (w1, Raise e) => set_status w1 task prefix expnum version ccd (str e)
    end.

End Stationary.

(** ** The batch and what the properties below speak of *)

Section Batch.

Context {Polygon : Type} {svc : Services Polygon}.

(** *** [main], lines 181-184: the loop over the exposures found *)
Definition run_all (w : World Polygon) (overlaps : list (string * Z))
    (dry_run force : bool) : World Polygon :=
  foldl (λ w overlap, run w overlap.1 overlap.2 "" "p" dry_run force) w overlaps.

(** *** [main()], lines 175-185

    [search] is [storage.MyPolygon.from_healpix(args.healpix).cone_search],
    [healpix], [dry_run] and [force] are the parsed arguments; the result is
    the exit code.  The parsing of the arguments, the logger and the
    assignment of [storage.DBIMAGES] are left out. *)
Definition main (search : list Z → Result (list (string * Z))) (w : World Polygon)
    (healpix : list Z) (dry_run force : bool) : World Polygon * Result Z :=
  match search healpix with
  | Raise e => (w, Raise e)
  | Ok overlaps => (run_all w overlaps dry_run force, Ok 0)
  end.

(** The dataset name [split_to_hpx] gives the rows of exposure [expnum], chip
    [ccd] (line 62). *)
Definition dataset_of (expnum : string) (ccd : Z) : string :=
  observation_dataset_name expnum +:+ catalog_version +:+ str_int ccd.





(** No retrieval of a shard fails for a reason of its own. *)
Definition shards_readable : Prop := ∀ pix, fault (AShard pix) = None.

End Batch.

(** ** A concrete set of collaborators

    Footprints are boxes in (RA, Dec), a HEALPix pixel is taken to be one
    degree of RA wide, and the matcher pairs a point with its nearest
    neighbour within the tolerance. *)

Record Box := mkBox {
  ra_min : Q;
  ra_max : Q;
  dec_min : Q;
  dec_max : Q
}.

Definition box_isInside (b : Box) (x y : Q) : bool :=
  Qle_bool (ra_min b) x && Qle_bool x (ra_max b)
  && Qle_bool (dec_min b) y && Qle_bool y (dec_max b).

Definition sep2 (a b : Q * Q) : Q :=
  ((a.1 - b.1) * (a.1 - b.1) + (a.2 - b.2) * (a.2 - b.2))%Q.

(** The index (counted from [k]) of the point of [B] nearest to [a], with its
    squared separation; the first one wins a tie. *)
Fixpoint nearest (k : nat) (a : Q * Q) (B : list (Q * Q)) : option (nat * Q) :=
  match B with
  | [] => None
  | b :: B' =>
      match nearest (S k) a B' with
      | Some (j, d) => if Qle_bool (sep2 a b) d then Some (k, sep2 a b) else Some (j, d)
      | None => Some (k, sep2 a b)
      end
  end.

(** Modelled from the spec: the SpatialMatcher contract (util.py is not part
    of the sources): the nearest point, matched if the separation is at most
    the tolerance. *)
Definition nearest_within (tol : Q) (B : list (Q * Q)) (a : Q * Q) : option nat :=
  match nearest 0 a B with
  | Some (j, d) => if Qle_bool d (tol * tol) then Some j else None
  | None => None
  end.

Definition nearest_match_lists (p1 p2 : list (Q * Q)) (tol : Q)
    : list (option nat) * list (option nat) :=
  (map (nearest_within tol p2) p1, map (nearest_within tol p1) p2).

Definition no_fault (a : Artifact) : option Exn := None.

Definition demo (match_list : list (string * Z)) (flt : Artifact → option Exn)
    (dep : option string) : Services Box := {|
  isInside := box_isInside;
  cone_search := λ _ _, Ok match_list;
  skycoord_to_healpix := λ x _, Qfloor x;
  match_lists := nearest_match_lists;
  fault := flt;
  dependency := dep;
  observation_dataset_name := λ expnum, expnum;
  catalog_version := "p"
|}.

Definition source (x y : Q) : Row := mkRow x y 0 0 0 0 "" 0.

Definition wide_box : Box := mkBox 0 360 (-90) 90.

(** One exposure, [1000] chip 1, with a single source and no shard yet. *)
Definition world_single : World Box :=
  mkWorld {[ ("1000", 1) := [source 10 5] ]}
          {[ ("1000", 1) := mkImage (Some 57000%Q) (Some 864%Q) wide_box ]}
          ∅ ∅ [].

(** A store in which pixel 10 already has a shard: a row of exposure [999]
    and the row an earlier run of exposure [1000] left. *)
Definition world_rerun : World Box :=
  mkWorld (catalogs world_single) (images world_single)
          {[ 10 := [mkRow 10 5 10 0 1 1 "999p1" 56999;
                    mkRow 10 5 10 0 0 0 "1000p1" 57000] ]}
          ∅ [].



(** Pixel 11 has a shard of three rows, the last one 0.18 arcsecond from the
    border with pixel 10, which has no shard.  Exposure [4000] has a source
    in pixel 10, 0.36 arcsecond from that row across the border, and a source
    in pixel 11; exposure [5000] has three sources in pixel 11, the first one
    0.036 arcsecond from the first row of the shard. *)
Definition world_border : World Box :=
  mkWorld {[ ("4000", 1) := [source (1099995 # 100000) 5; source (23 # 2) 5];
             ("5000", 1) := [source (1120001 # 100000) 5; source (23 # 2) 5;
                             source (58 # 5) 5] ]}
          {[ ("4000", 1) := mkImage (Some 57000%Q) (Some 864%Q) wide_box;
             ("5000", 1) := mkImage (Some 57001%Q) (Some 864%Q) wide_box ]}
          {[ 11 := [mkRow (56 # 5) 5 11 0 0 0 "3999p1" 56999;
                    mkRow (113 # 10) 5 11 1 0 0 "3999p1" 56999;
                    mkRow (1100005 # 100000) 5 11 2 0 0 "3999p1" 56999] ]}
          ∅ [].



(** The same store once the task has been recorded as done. *)
Definition world_done : World Box :=
  mkWorld (catalogs world_single) (images world_single) ∅
          {[ (task, "", "1000", "p", 1) := SUCCESS ]} [].

(** A store that answers the retrieval of the shard of pixel 11 with an
    input/output error. *)
Definition shard_fault (a : Artifact) : option Exn :=
  match a with
  | AShard pix => if pix =? 11 then Some (OSError 5 "Input/output error") else None
  | _ => None
  end.

(** Exposure [6000] chip 1, whose header has no MJDATE; exposure [6001] chip
    1, whose image is there and whose catalogue is not. *)
Definition world_lacking : World Box :=
  mkWorld {[ ("6000", 1) := [source 10 5] ]}
          {[ ("6000", 1) := mkImage None (Some 864%Q) wide_box;
             ("6001", 1) := mkImage (Some 57000%Q) (Some 864%Q) wide_box ]}
          ∅ ∅ [].


Definition search_one (healpix : list Z) : Result (list (string * Z)) :=
  Ok [("1000", 1)].

(** ** What a run leaves alone *)

Section Frame.

Context {Polygon : Type} {svc : Services Polygon}.
Implicit Types (w : World Polygon) (tbl : list Row).

Lemma put_pixel_frame ds tbl w pix w1 r :
  put_pixel ds tbl w pix = (w1, r) →
  catalogs w1 = catalogs w ∧ images w1 = images w ∧ statuses w1 = statuses w.
Proof.
  unfold put_pixel.
  destruct (get_shard w pix) as [hpx|ex]; [|destruct (is_ENOENT ex)];
    intros [= <- <-]; done.
Qed.

Lemma put_pixels_frame ds tbl pixels : ∀ w w1 r,
  put_pixels ds tbl pixels w = (w1, r) →
  catalogs w1 = catalogs w ∧ images w1 = images w ∧ statuses w1 = statuses w.
Proof.
  induction pixels as [|pix rest IH]; intros w w1 r; simpl.
  - intros [= <- <-]; done.
  - destruct (put_pixel ds tbl w pix) as [w0 [[]|ex]] eqn:Hput;
      apply put_pixel_frame in Hput as (Hc & Hi & Hs).
    + intros Hrest. apply IH in Hrest as (-> & -> & ->). done.
    + intros [= <- <-]; done.
Qed.

(** A turn of the pixel loop that succeeds is one [put]; one that raises
    writes nothing. *)
Lemma put_pixel_events ds tbl w pix w1 r :
  put_pixel ds tbl w pix = (w1, r) →
  match r with
  | Ok _ => events w1 = events w ++ [EvPut pix]
  | Raise _ => w1 = w
  end.
Proof.
  unfold put_pixel.
  destruct (get_shard w pix) as [hpx|ex]; [|destruct (is_ENOENT ex)];
    intros [= <- <-]; done.
Qed.

Lemma put_pixels_events ds tbl pixels : ∀ w w1,
  put_pixels ds tbl pixels w = (w1, Ok tt) →
  events w1 = events w ++ map EvPut pixels.
Proof.
  induction pixels as [|pix rest IH]; intros w w1; simpl.
  - intros [= <-]. by rewrite app_nil_r.
  - destruct (put_pixel ds tbl w pix) as [w0 [[]|ex]] eqn:Hput; [|done].
    apply put_pixel_events in Hput. intros Hrest%IH.
    rewrite Hrest, Hput, <- app_assoc. done.
Qed.

Lemma split_to_hpx_frame w catalog w1 r :
  split_to_hpx w catalog = (w1, r) →
  catalogs w1 = catalogs w ∧ images w1 = images w ∧ statuses w1 = statuses w.
Proof.
  unfold split_to_hpx.
  destruct (get_image w _ _) as [image|e]; [|intros [= <- <-]; done].
  destruct (mid_mjdate_of image) as [mid|e]; [|intros [= <- <-]; done].
  apply put_pixels_frame.
Qed.

Lemma attempt_frame w expnum ccd prefix w1 r :
  attempt w expnum ccd prefix = (w1, r) →
  catalogs w1 = catalogs w ∧ images w1 = images w ∧ statuses w1 = statuses w.
Proof.
  unfold attempt.
  match goal with |- context [if ?b then _ else _] => destruct b end;
    [intros [= <- <-]; done|].
  destruct (match_ _ expnum ccd) as [catalog|e]; [|intros [= <- <-]; done].
  intros Hsplit%split_to_hpx_frame. done.
Qed.

Lemma get_image_same w w' expnum ccd :
  images w = images w' → get_image w expnum ccd = get_image w' expnum ccd.
Proof. unfold get_image. by intros ->. Qed.



End Frame.

(** ** Lists, indices and [numpy.unique] *)

Section Lists.

Lemma insert_unique_elem x l y : y ∈ insert_unique x l ↔ y = x ∨ y ∈ l.
Proof.
  induction l as [|z t IH]; simpl.
  - rewrite list_elem_of_singleton, elem_of_nil. tauto.
  - destruct (x <? z); [by rewrite elem_of_cons|].
    destruct (x =? z) eqn:Heq.
    + apply Z.eqb_eq in Heq as ->. rewrite elem_of_cons. tauto.
    + rewrite !elem_of_cons, IH. tauto.
Qed.

Lemma unique_elem l y : y ∈ unique l ↔ y ∈ l.
Proof.
  unfold unique. induction l as [|x t IH]; simpl; [done|].
  rewrite insert_unique_elem, IH, elem_of_cons. done.
Qed.

Lemma insert_unique_sorted x l :
  StronglySorted Z.lt l → StronglySorted Z.lt (insert_unique x l).
Proof.
  induction 1 as [|z t Ht IH Hz]; simpl.
  - repeat constructor.
  - destruct (x <? z) eqn:Hlt.
    + apply Z.ltb_lt in Hlt. constructor; [by constructor|].
      constructor; [done|]. eapply Forall_impl; [exact Hz|]. simpl. lia.
    + destruct (x =? z) eqn:Heq; [by constructor|].
      apply Z.ltb_ge in Hlt. apply Z.eqb_neq in Heq.
      constructor; [done|]. apply Forall_forall.
      intros y [->|Hy]%insert_unique_elem; [lia|].
      by apply (proj1 (Forall_forall _ t) Hz).
Qed.

Lemma unique_sorted l : StronglySorted Z.lt (unique l).
Proof.
  unfold unique. induction l as [|x t IH]; simpl; [constructor|].
  by apply insert_unique_sorted.
Qed.

Lemma unique_NoDup l : NoDup (unique l).
Proof.
  pose proof (unique_sorted l) as Hs.
  induction Hs as [|z t Ht IH Hz]; constructor; [|done].
  intros Hin. pose proof (proj1 (Forall_forall _ t) Hz z Hin). lia.
Qed.

(** *** The value a fancy-index assignment leaves at a position *)

Lemma last_assigned_elem k idx : ∀ vals v,
  last_assigned k idx vals = Some v → Some k ∈ idx ∧ v ∈ vals.
Proof.
  induction idx as [|o idx IH]; intros [|v0 vals] v; simpl; try done.
  destruct (last_assigned k idx vals) as [v'|] eqn:Hrest.
  - intros [= <-]. destruct (IH _ _ Hrest). split; by apply list_elem_of_further.
  - case_bool_decide as Ho; [|done]. intros [= <-]. subst o.
    split; apply list_elem_of_here.
Qed.


Lemma last_assigned_None k idx vals :
  length idx = length vals → Some k ∉ idx → last_assigned k idx vals = None.
Proof.
  intros _ Hnot. destruct (last_assigned k idx vals) as [v|] eqn:Hla; [|done].
  by apply last_assigned_elem in Hla as [? _].
Qed.



(** *** The value the numbering leaves at a position *)



End Lists.

(** ** Merging into a shard *)

Section Merge.

Context {Polygon : Type} {svc : Services Polygon}.
Implicit Types (w : World Polygon) (tbl shard rows : list Row).

Lemma stamp_dataset ds mid tbl : Forall (λ r, dataset_name r = ds) (stamp ds mid tbl).
Proof.
  unfold stamp. rewrite map_map. apply Forall_forall.
  intros r' (r & <- & _)%list_elem_of_In%in_map_iff. done.
Qed.

Lemma rows_of_pixel_dataset ds pix tbl :
  Forall (λ r, dataset_name r = ds) tbl →
  Forall (λ r, dataset_name r = ds) (rows_of_pixel pix tbl).
Proof.
  intros Htbl. unfold rows_of_pixel. apply Forall_forall.
  intros r [_ Hr]%list_elem_of_filter.
  by apply (proj1 (Forall_forall _ tbl) Htbl).
Qed.

Lemma filter_all shard (P : Row → Prop) `{∀ r, Decision (P r)} :
  Forall P shard → filter P shard = shard.
Proof.
  induction 1 as [|r t Hr _ IH]; [done|].
  rewrite filter_cons_True by done. by rewrite IH.
Qed.

Lemma filter_none shard (P : Row → Prop) `{∀ r, Decision (P r)} :
  Forall (λ r, ¬ P r) shard → filter P shard = [].
Proof.
  induction 1 as [|r t Hr _ IH]; [done|].
  rewrite filter_cons_False by done. done.
Qed.

Lemma merge_dataset_rows shard ds rows :
  Forall (λ r, dataset_name r = ds) rows →
  dataset_rows ds (merge shard ds rows) = rows.
Proof.
  intros Hrows. unfold dataset_rows, merge. rewrite filter_app.
  rewrite (filter_none (filter _ shard)), (filter_all rows); [done..|].
  apply Forall_forall. intros r [Hr _]%list_elem_of_filter. done.
Qed.

Lemma merge_again shard ds rows :
  Forall (λ r, dataset_name r = ds) rows →
  merge (merge shard ds rows) ds rows = merge shard ds rows.
Proof.
  intros Hrows. unfold merge.
  rewrite filter_app, (filter_none rows), app_nil_r.
  - f_equal. apply filter_all. apply Forall_forall.
    intros r [Hr _]%list_elem_of_filter. done.
  - eapply Forall_impl; [exact Hrows|]. simpl. intros r Hr Hne. done.
Qed.

Lemma merge_fresh ds rows :
  Forall (λ r, dataset_name r = ds) rows → merge rows ds rows = rows.
Proof.
  intros Hrows. unfold merge. rewrite (filter_none rows); [done|].
  eapply Forall_impl; [exact Hrows|]. simpl. intros r Hr Hne. done.
Qed.

Lemma put_pixel_shards ds tbl w pix w1 :
  put_pixel ds tbl w pix = (w1, Ok tt) →
  shards w1 = <[pix := written ds tbl w pix]> (shards w).
Proof.
  unfold put_pixel, written.
  destruct (get_shard w pix) as [hpx|ex]; [|destruct (is_ENOENT ex)];
    intros [= <-]; done.
Qed.

Lemma written_dataset_rows ds tbl w pix :
  Forall (λ r, dataset_name r = ds) tbl →
  dataset_rows ds (written ds tbl w pix) = rows_of_pixel pix tbl.
Proof.
  intros Htbl%(rows_of_pixel_dataset ds pix). unfold written.
  destruct (get_shard w pix) as [hpx|ex].
  - by apply merge_dataset_rows.
  - unfold dataset_rows. by apply filter_all.
Qed.

(** Putting the same rows again, on a store whose shards are those the
    first put left, succeeds and leaves the same shards. *)
Lemma put_pixel_stable ds tbl w pix w1 w2 :
  Forall (λ r, dataset_name r = ds) tbl →
  put_pixel ds tbl w pix = (w1, Ok tt) →
  shards w2 = shards w1 →
  ∃ w3, put_pixel ds tbl w2 pix = (w3, Ok tt) ∧ shards w3 = shards w1.
Proof.
  intros Htbl%(rows_of_pixel_dataset ds pix) Hput Hsame.
  pose proof (put_pixel_shards _ _ _ _ _ Hput) as Hw1.
  assert (shards w2 !! pix = Some (written ds tbl w pix)) as Hpix.
  { rewrite Hsame, Hw1. apply lookup_insert_eq. }
  revert Hput Hw1 Hpix. unfold put_pixel, written, get_shard, retrieve.
  destruct (fault (AShard pix)) as [e|].
  - destruct (is_ENOENT e); [|done]. intros _ Hw1 _. eexists. split; [done|].
    simpl. rewrite Hsame, Hw1. apply insert_insert_eq.
  - intros _ Hw1 ->. eexists. split; [done|]. simpl.
    rewrite Hsame, Hw1, insert_insert_eq. f_equal.
    destruct (shards w !! pix) as [hpx|]; simpl.
    + by apply merge_again.
    + by apply merge_fresh.
Qed.

(** C2 (idempotent merge): the turn of the pixel loop of [split_to_hpx], on
    the table the function has stamped with its dataset name, writes the
    shard read without its rows of that dataset, followed by the new rows;
    the rows of the dataset in the shard are then exactly the new rows, and
    repeating the turn any number of times succeeds and leaves the same
    shards: the rows of a dataset are never duplicated. *)
Theorem put_pixel_rerun ds mid tbl0 w pix w1 :
  let tbl := stamp ds mid tbl0 in
  let again := λ w, (put_pixel ds tbl w pix).1 in
  put_pixel ds tbl w pix = (w1, Ok tt) →
  (∀ hpx, get_shard w pix = Ok hpx →
     shards w1 !! pix
     = Some (filter (λ r, dataset_name r ≠ ds) hpx ++ rows_of_pixel pix tbl))
  ∧ (∃ hpx1, shards w1 !! pix = Some hpx1
             ∧ dataset_rows ds hpx1 = rows_of_pixel pix tbl)
  ∧ ∀ n, shards (Nat.iter n again w1) = shards w1
         ∧ (put_pixel ds tbl (Nat.iter n again w1) pix).2 = Ok tt.
Proof.
  intros tbl again Hput.
  pose proof (stamp_dataset ds mid tbl0) as Htbl. fold tbl in Htbl.
  pose proof (put_pixel_shards _ _ _ _ _ Hput) as Hw1.
  split; [|split].
  - intros hpx Hget. rewrite Hw1, lookup_insert_eq. unfold written.
    by rewrite Hget.
  - exists (written ds tbl w pix). split; [by rewrite Hw1, lookup_insert_eq|].
    by apply written_dataset_rows.
  - assert (∀ n, shards (Nat.iter n again w1) = shards w1) as Hiter.
    { induction n as [|n IH]; [done|]. simpl.
      destruct (put_pixel_stable _ _ _ _ _ _ Htbl Hput IH) as (w3 & Hw3 & Hsh).
      unfold again at 1. by rewrite Hw3. }
    intros n. split; [apply Hiter|].
    destruct (put_pixel_stable _ _ _ _ _ _ Htbl Hput (Hiter n)) as (w3 & Hw3 & _).
    by rewrite Hw3.
Qed.

Lemma written_ext ds tbl w w' pix :
  shards w !! pix = shards w' !! pix → written ds tbl w pix = written ds tbl w' pix.
Proof. unfold written, get_shard. by intros ->. Qed.

(** Putting again the rows of a pixel whose shard holds what the first put
    left there. *)
Lemma put_pixel_settled ds tbl w pix w1 w2 :
  Forall (λ r, dataset_name r = ds) tbl →
  put_pixel ds tbl w pix = (w1, Ok tt) →
  shards w2 !! pix = Some (written ds tbl w pix) →
  ∃ w3, put_pixel ds tbl w2 pix = (w3, Ok tt)
        ∧ shards w3 = <[pix := written ds tbl w pix]> (shards w2).
Proof.
  intros Htbl%(rows_of_pixel_dataset ds pix).
  unfold put_pixel, written, get_shard, retrieve.
  destruct (fault (AShard pix)) as [e|].
  - destruct (is_ENOENT e); [|done]. intros _ _. by eexists.
  - intros _ ->. eexists. split; [done|]. simpl. f_equal.
    destruct (shards w !! pix) as [hpx|]; simpl.
    + by apply merge_again.
    + by apply merge_fresh.
Qed.

Lemma put_pixels_rerun ds tbl pixels : ∀ w w1 w2,
  Forall (λ r, dataset_name r = ds) tbl →
  NoDup pixels →
  put_pixels ds tbl pixels w = (w1, Ok tt) →
  (∀ pix, pix ∈ pixels → shards w2 !! pix = Some (written ds tbl w pix)) →
  ∃ w3, put_pixels ds tbl pixels w2 = (w3, Ok tt) ∧ shards w3 = shards w2.
Proof.
  induction pixels as [|q rest IH]; intros w w1 w2 Htbl Hnd; simpl.
  - intros _ _. by eexists.
  - apply NoDup_cons in Hnd as [Hq Hnd].
    destruct (put_pixel ds tbl w q) as [w0 [[]|ex]] eqn:Hput; [|done].
    intros Hrest Hw2.
    destruct (put_pixel_settled _ _ _ _ _ w2 Htbl Hput) as (w2' & Hput2 & Hsh2).
    { apply Hw2, list_elem_of_here. }
    rewrite Hput2.
    assert (shards w2' = shards w2) as Hsame.
    { rewrite Hsh2. apply insert_id, Hw2, list_elem_of_here. }
    destruct (IH w0 w1 w2' Htbl Hnd Hrest) as (w3 & Hput3 & Hsh3).
    { intros pix Hpix. rewrite Hsame, (Hw2 pix) by by apply list_elem_of_further.
      f_equal. apply written_ext.
      rewrite (put_pixel_shards _ _ _ _ _ Hput).
      symmetry. apply lookup_insert_ne. by intros ->. }
    exists w3. split; [done|]. by rewrite Hsh3.
Qed.

Lemma put_pixels_shards ds tbl pixels : ∀ w w1,
  NoDup pixels →
  put_pixels ds tbl pixels w = (w1, Ok tt) →
  ∀ pix, pix ∈ pixels → shards w1 !! pix = Some (written ds tbl w pix).
Proof.
  induction pixels as [|q rest IH]; intros w w1 Hnd; simpl.
  - by intros _ pix ?%elem_of_nil.
  - apply NoDup_cons in Hnd as [Hq Hnd].
    destruct (put_pixel ds tbl w q) as [w0 [[]|ex]] eqn:Hput; [|done].
    intros Hrest pix.
    pose proof (put_pixel_shards _ _ _ _ _ Hput) as Hw0.
    destruct (decide (pix ∈ rest)) as [Hin|Hnot].
    + intros _. rewrite (IH _ _ Hnd Hrest pix Hin). f_equal.
      apply written_ext. rewrite Hw0. apply lookup_insert_ne. by intros ->.
    + intros [->|Hin]%elem_of_cons; [|done].
      assert (∀ pixels w w1, q ∉ pixels →
                put_pixels ds tbl pixels w = (w1, Ok tt) →
                shards w1 !! q = shards w !! q) as Hkeep.
      { clear. induction pixels as [|p rest IH]; intros w w1 Hq; simpl.
        - by intros [= <-].
        - apply not_elem_of_cons in Hq as [Hne Hq].
          destruct (put_pixel ds tbl w p) as [w0 [[]|ex]] eqn:Hput; [|done].
          intros Hrest. rewrite (IH _ _ Hq Hrest).
          rewrite (put_pixel_shards _ _ _ _ _ Hput).
          by apply lookup_insert_ne. }
      rewrite (Hkeep _ _ _ Hnot Hrest), Hw0. apply lookup_insert_eq.
Qed.

(** X16 (a second split): running [split_to_hpx] again on the store it
    left, with the same catalogue, succeeds and leaves every shard as it
    is. *)
Lemma split_to_hpx_rerun w catalog w1 :
  split_to_hpx w catalog = (w1, Ok tt) →
  ∃ w2, split_to_hpx w1 catalog = (w2, Ok tt) ∧ shards w2 = shards w1.
Proof.
  intros Hsplit.
  pose proof (split_to_hpx_frame _ _ _ _ Hsplit) as (_ & Him & _).
  revert Hsplit. unfold split_to_hpx.
  rewrite (get_image_same w1 w _ _ Him).
  destruct (get_image w _ _) as [image|e]; [|done].
  destruct (mid_mjdate_of image) as [mid|e]; [|done].
  intros Hput.
  eapply put_pixels_rerun; [apply stamp_dataset|apply unique_NoDup|exact Hput|].
  exact (put_pixels_shards _ _ _ _ _ (unique_NoDup _) Hput).
Qed.

End Merge.

(** ** The counts do not depend on what was stored *)

Section Counts.

Context {Polygon : Type} {svc : Services Polygon}.
Implicit Types (w : World Polygon) (tbl : list Row).

Lemma reset_counts_erase tbl : reset_counts tbl = map erase tbl.
Proof. unfold reset_counts. by rewrite map_map. Qed.

Lemma positions_erase tbl : positions (map erase tbl) = positions tbl.
Proof. unfold positions. rewrite map_map. done. Qed.






Lemma get_shard_ext w w' pix : shards w = shards w' → get_shard w pix = get_shard w' pix.
Proof. unfold get_shard. by intros ->. Qed.

Lemma get_catalog_ext w w' expnum ccd :
  reset_counts <$> catalogs w = reset_counts <$> catalogs w' →
  reset_counts <$> get_catalog w expnum ccd = reset_counts <$> get_catalog w' expnum ccd.
Proof.
  intros Hcat.
  apply (f_equal (λ m, m !! (expnum, ccd))) in Hcat. rewrite !lookup_fmap in Hcat.
  unfold get_catalog, retrieve.
  destruct (fault (ACatalog expnum ccd)); [done|].
  destruct (catalogs w !! (expnum, ccd)), (catalogs w' !! (expnum, ccd));
    simplify_eq/=; by f_equal.
Qed.

Lemma build_hpxid_ext w w' p1 pixels : ∀ tbl,
  shards w = shards w' → build_hpxid w p1 pixels tbl = build_hpxid w' p1 pixels tbl.
Proof.
  intros tbl Hsh. revert tbl.
  induction pixels as [|healpix rest IH]; intros tbl; simpl; [done|].
  unfold assign_pixel. rewrite (get_shard_ext w w' healpix Hsh).
  match goal with |- mbind _ ?m = _ => destruct m as [tbl1|e] end; simpl; [|done].
  apply IH.
Qed.

Lemma try_candidate_ext w w' p1 tbl match_set :
  images w = images w' →
  reset_counts <$> catalogs w = reset_counts <$> catalogs w' →
  try_candidate w p1 tbl match_set = try_candidate w' p1 tbl match_set.
Proof.
  intros Him Hcats. unfold try_candidate.
  pose proof (get_catalog_ext w w' match_set.1 match_set.2 Hcats) as Hcat.
  rewrite <- (get_image_same w w' match_set.1 match_set.2 Him).
  destruct (get_catalog w match_set.1 match_set.2) as [cat|e],
           (get_catalog w' match_set.1 match_set.2) as [cat'|e'];
    simplify_eq/=; [|done].
  assert (positions cat = positions cat') as ->; [|done].
  rewrite <- (positions_erase cat), <- (positions_erase cat').
  by rewrite <- !reset_counts_erase, Hcat.
Qed.

Lemma count_matches_ext w w' p1 match_list : ∀ tbl,
  images w = images w' →
  reset_counts <$> catalogs w = reset_counts <$> catalogs w' →
  count_matches w p1 match_list tbl = count_matches w' p1 match_list tbl.
Proof.
  intros tbl Him Hcats. revert tbl.
  induction match_list as [|match_set rest IH]; intros tbl; simpl; [done|].
  unfold match_candidate. rewrite (try_candidate_ext w w' p1 tbl match_set Him Hcats).
  match goal with |- mbind _ ?m = _ => destruct m as [tbl1|e] end; simpl; [|done].
  apply IH.
Qed.















(** The HPXID loop changes nothing but the HPXID column. *)
Lemma drop_id_number_from healpix tbl : ∀ next,
  map drop_id (number_from next healpix tbl) = map drop_id tbl.
Proof.
  induction tbl as [|r t IH]; intros next; simpl; [done|].
  destruct (to_number healpix r); simpl; by rewrite IH.
Qed.

Lemma drop_id_assign_matched idx2 hpx tbl tbl' :
  assign_matched idx2 hpx tbl = Ok tbl' → map drop_id tbl' = map drop_id tbl.
Proof.
  unfold assign_matched.
  destruct ((length idx2 =? length hpx)%nat && in_range (length tbl) idx2); [|done].
  intros [= <-]. change (map ?f ?l) with (f <$> l). rewrite fmap_imap.
  rewrite <- (imap_const _ tbl). apply imap_ext.
  intros k r _. simpl. by destruct (last_assigned k idx2 (map HPXID hpx)).
Qed.

Lemma drop_id_build_hpxid w p1 pixels : ∀ tbl tbl',
  build_hpxid w p1 pixels tbl = Ok tbl' → map drop_id tbl' = map drop_id tbl.
Proof.
  induction pixels as [|healpix rest IH]; intros tbl tbl'; simpl.
  - by intros [= <-].
  - destruct (assign_pixel w p1 tbl healpix) as [tbl1|e] eqn:H1; simpl; [|done].
    intros ->%IH. revert H1. unfold assign_pixel.
    destruct (get_shard w healpix) as [hpx|ose]; simpl.
    + destruct (match_lists p1 (positions hpx) tolerance) as [idx1 idx2].
      destruct (assign_matched idx2 hpx tbl) as [tbl0|e] eqn:H0; simpl; [|done].
      intros [= <-]. rewrite drop_id_number_from.
      by apply drop_id_assign_matched in H0.
    + destruct (is_ENOENT ose); simpl; [|done].
      intros [= <-]. apply drop_id_number_from.
Qed.





Lemma match_log w ev expnum ccd : match_ (log ev w) expnum ccd = match_ w expnum ccd.
Proof.
  unfold match_.
  rewrite (get_image_same (log ev w) w expnum ccd eq_refl).
  destruct (get_image w expnum ccd) as [image|e]; simpl; [|done].
  destruct (cone_search (polygon image) (header_MJDATE image))
    as [match_list|e]; simpl; [|done].
  change (get_catalog (log ev w) expnum ccd) with (get_catalog w expnum ccd).
  destruct (get_catalog w expnum ccd) as [tbl|e]; simpl; [|done].
  rewrite (build_hpxid_ext (log ev w) w _ _ _ eq_refl).
  match goal with |- context [build_hpxid ?a ?b ?c ?d] =>
    destruct (build_hpxid a b c d) as [tbl3|e] end; simpl; [|done].
  by rewrite (count_matches_ext (log ev w) w _ _ _ eq_refl eq_refl).
Qed.

End Counts.

(** ** The HPXID column *)

Section Identifiers.

Context {Polygon : Type} {svc : Services Polygon}.
Implicit Types (w : World Polygon) (tbl : list Row).







End Identifiers.

(** ** The state machine of [run] *)

Section Orchestrator.

Context {Polygon : Type} {svc : Services Polygon}.
Implicit Types (w : World Polygon) (tbl : list Row).

(** C7 (skip if done): when the recorded status of the task is success and
    [force] is false, [run] returns the store it was given: nothing is
    computed (no event is added to the trace) and nothing is written, neither
    a catalogue, nor a shard, nor a status. *)
Theorem run_skips_when_done w expnum ccd prefix version dry_run :
  get_status w task prefix expnum version ccd = true →
  run w expnum ccd prefix version dry_run false = w.
Proof.
  intros Hdone. unfold run. by rewrite Hdone.
Qed.

(** C5 (dependency gate): when a dependency is named and its status is not
    success, [run] leaves the catalogues and every shard as they were; unless
    the task is skipped as already done, the only thing it does is to record
    the failure "<dependency> not yet run for <expnum>" as the status of the
    task: no match is computed and no shard is put. *)
Theorem run_dependency_not_met w expnum ccd prefix version dry_run force dep :
  dependency = Some dep →
  get_status w dep prefix expnum "p" ccd = false →
  let w' := run w expnum ccd prefix version dry_run force in
  let message := dep +:+ " not yet run for " +:+ expnum in
  catalogs w' = catalogs w ∧ shards w' = shards w ∧ images w' = images w ∧
  (get_status w task prefix expnum version ccd && negb force = false →
   statuses w' = <[(task, prefix, expnum, version, ccd) := message]> (statuses w) ∧
   events w' = events w ++ [EvSetStatus task message]).
Proof.
  intros Hdep Hstatus. unfold run, attempt, unmet. rewrite Hdep, Hstatus. simpl.
  destruct (get_status w task prefix expnum version ccd && negb force); simpl.
  - repeat split; done.
  - repeat split; done.
Qed.







End Orchestrator.

Lemma run_skips_when_done_witness :
  get_status world_done task "" "1000" "p" 1 = true
  ∧ run (svc := demo [] no_fault None) world_done "1000" 1 "" "p" false false
    = world_done.
Proof.
  split; [vm_compute; reflexivity|].
  apply (run_skips_when_done (svc := demo [] no_fault None)).
  vm_compute. reflexivity.
Defined.

Lemma run_dependency_not_met_witness :
  let svc := demo [] no_fault (Some "build_cat") in
  let w' := run (svc := svc) world_single "1000" 1 "" "p" false false in
  let message := "build_cat not yet run for 1000" in
  get_status world_single "build_cat" "" "1000" "p" 1 = false
  ∧ catalogs w' = catalogs world_single ∧ shards w' = shards world_single
  ∧ images w' = images world_single
  ∧ (get_status world_single task "" "1000" "p" 1 && negb false = false →
     statuses w' = <[(task, "", "1000", "p", 1) := message]> (statuses world_single)
     ∧ events w' = events world_single ++ [EvSetStatus task message]).
Proof.
  intros svc w' message.
  split; [vm_compute; reflexivity|].
  apply (run_dependency_not_met (svc := svc) world_single "1000" 1 "" "p"
           false false "build_cat").
  - reflexivity.
  - vm_compute. reflexivity.
Defined.








Lemma put_pixel_rerun_witness :
  let svc := demo [] no_fault None in
  let ds := "1000p1" in
  let tbl := stamp ds 57000 [mkRow 10 5 10 0 0 0 "" 0] in
  let again := λ w, (put_pixel (svc := svc) ds tbl w 10).1 in
  ∃ w1,
    put_pixel (svc := svc) ds tbl world_rerun 10 = (w1, Ok tt)
    ∧ (length <$> shards world_rerun !! 10) = Some 2%nat
    ∧ (length <$> shards w1 !! 10) = Some 2%nat
    ∧ (length <$> shards (Nat.iter 3 again w1) !! 10) = Some 2%nat
    ∧ ∀ n, shards (Nat.iter n again w1) = shards w1
           ∧ (put_pixel ds tbl (Nat.iter n again w1) 10).2 = Ok tt.
Proof.
  intros svc ds tbl again. eexists.
  split; [vm_compute; reflexivity|].
  split; [vm_compute; reflexivity|].
  split; [vm_compute; reflexivity|].
  split; [vm_compute; reflexivity|].
  eapply (put_pixel_rerun (svc := svc) ds 57000 [mkRow 10 5 10 0 0 0 "" 0]
            world_rerun 10).
  vm_compute. reflexivity.
Defined.





(** The matcher of the scenarios on the example of the specification: with a
    tolerance of 0.5 arcsecond, two points 0.47 arcsecond apart are paired,
    two points 1 arcsecond apart are not. *)
Example matcher_within_tolerance :
  nearest_match_lists [(10, 5)%Q] [((1000013 # 100000), 5)%Q] tolerance
  = ([Some 0%nat], [Some 0%nat]).
Proof. vm_compute. reflexivity. Qed.

Example matcher_beyond_tolerance :
  nearest_match_lists [(10, 5)%Q] [((10 + 1 / 3600)%Q, 5%Q)] tolerance
  = ([None], [None]).
Proof. vm_compute. reflexivity. Qed.

(** ** More on [match] *)

Section Columns.

Context {Polygon : Type} {svc : Services Polygon}.
Implicit Types (w : World Polygon) (tbl : list Row).

(** The HPXID loop changes no column but HPXID. *)
Lemma build_hpxid_keeps {A} (f : Row → A) w p1 pixels tbl tbl' :
  (∀ v r, f (set_HPXID v r) = f r) →
  build_hpxid w p1 pixels tbl = Ok tbl' → map f tbl' = map f tbl.
Proof.
  intros Hf Hbuild. apply drop_id_build_hpxid in Hbuild.
  apply (f_equal (map f)) in Hbuild. rewrite !map_map in Hbuild.
  assert (∀ l, map (λ x, f (drop_id x)) l = map f l) as Hd.
  { intros l. apply List.map_ext. intros r. apply Hf. }
  by rewrite !Hd in Hbuild.
Qed.

(** The candidate loop changes no column but MATCHES and OVERLAPS. *)
Lemma match_candidate_keeps {A} (f : Row → A) w p1 tbl match_set tbl' :
  (∀ v r, f (set_MATCHES v r) = f r) →
  (∀ v r, f (set_OVERLAPS v r) = f r) →
  match_candidate w p1 tbl match_set = Ok tbl' → map f tbl' = map f tbl.
Proof.
  intros Hm Ho. unfold match_candidate, try_candidate.
  destruct (get_catalog w match_set.1 match_set.2) as [cat|e]; simpl;
    [|destruct (is_ENOENT e); by intros [= <-]].
  destruct (get_image w match_set.1 match_set.2) as [img|e]; simpl;
    [|destruct (is_ENOENT e); by intros [= <-]].
  destruct (match_lists p1 (positions cat) tolerance) as [idx1 idx2].
  unfold increment_matches.
  destruct (in_range (length tbl) idx2); simpl; [|by intros [= <-]].
  intros [= <-]. unfold add_overlaps. rewrite map_map.
  change (map ?g ?l) with (g <$> l). rewrite fmap_imap.
  rewrite <- (imap_const _ tbl). apply imap_ext.
  intros k r _. simpl.
  destruct (bool_decide (Some k ∈ idx2));
    destruct (isInside (polygon img) _ _); by rewrite ?Ho, ?Hm.
Qed.

Lemma count_matches_keeps {A} (f : Row → A) w p1 match_list : ∀ tbl tbl',
  (∀ v r, f (set_MATCHES v r) = f r) →
  (∀ v r, f (set_OVERLAPS v r) = f r) →
  count_matches w p1 match_list tbl = Ok tbl' → map f tbl' = map f tbl.
Proof.
  induction match_list as [|match_set rest IH]; intros tbl tbl' Hm Ho; simpl.
  - by intros [= <-].
  - destruct (match_candidate w p1 tbl match_set) as [tbl1|e] eqn:Hone; simpl; [|done].
    intros ->%IH; [|done..]. by eapply match_candidate_keeps.
Qed.

(** What a successful [match] went through. *)
Lemma match_inv w expnum ccd catalog :
  match_ w expnum ccd = Ok catalog →
  ∃ image match_list tbl tbl3,
    get_image w expnum ccd = Ok image
    ∧ cone_search (polygon image) (header_MJDATE image) = Ok match_list
    ∧ get_catalog w expnum ccd = Ok tbl
    ∧ build_hpxid w (positions (pixelate tbl))
        (unique (map HEALPIX (unassigned (pixelate tbl))))
        (unassigned (pixelate tbl)) = Ok tbl3
    ∧ count_matches w (positions (pixelate tbl)) match_list (reset_counts tbl3)
      = Ok (table catalog)
    ∧ catalog = mkFitsTable expnum ccd catalog_version (table catalog).
Proof.
  unfold match_.
  destruct (get_image w expnum ccd) as [image|e] eqn:H0; simpl; [|done].
  destruct (cone_search (polygon image) (header_MJDATE image))
    as [match_list|e] eqn:H1; simpl; [|done].
  destruct (get_catalog w expnum ccd) as [tbl|e] eqn:H2; simpl; [|done].
  destruct (build_hpxid w _ _ _) as [tbl3|e] eqn:H3; simpl; [|done].
  destruct (count_matches w _ match_list _) as [tbl4|e] eqn:H4; simpl; [|done].
  intros [= <-]. exists image, match_list, tbl, tbl3.
  split; [done|]. split; [exact H1|]. split; [done|].
  split; [exact H3|]. split; [exact H4|]. reflexivity.
Qed.

Lemma positions_pixelate tbl : positions (pixelate tbl) = positions tbl.
Proof. unfold positions, pixelate. rewrite map_map. done. Qed.

Lemma match_keeps w expnum ccd catalog tbl {A} (f : Row → A) :
  (∀ v r, f (set_HPXID v r) = f r) →
  (∀ v r, f (set_MATCHES v r) = f r) →
  (∀ v r, f (set_OVERLAPS v r) = f r) →
  match_ w expnum ccd = Ok catalog →
  get_catalog w expnum ccd = Ok tbl →
  map f (table catalog) = map f (pixelate tbl).
Proof.
  intros Hh Hm Ho (image & ml & tbl0 & tbl3 & _ & _ & Hcat & H3 & H4 & _)%match_inv Hcat'.
  assert (tbl0 = tbl) as -> by congruence.
  rewrite (count_matches_keeps f _ _ _ _ _ Hm Ho H4).
  assert (map f (reset_counts tbl3) = map f tbl3) as ->.
  { unfold reset_counts. rewrite !map_map. apply List.map_ext.
    intros r. by rewrite Ho, Hm. }
  rewrite (build_hpxid_keeps f _ _ _ _ _ Hh H3).
  unfold unassigned. rewrite map_map. apply List.map_ext. intros r. apply Hh.
Qed.

Lemma match_keeps_columns w expnum ccd catalog tbl :
  match_ w expnum ccd = Ok catalog →
  get_catalog w expnum ccd = Ok tbl →
  positions (table catalog) = positions tbl
  ∧ map HEALPIX (table catalog)
    = map (λ r, skycoord_to_healpix (X_WORLD r) (Y_WORLD r)) tbl.
Proof.
  intros Hmatch Hcat.
  pose proof (match_keeps w expnum ccd catalog tbl (λ r, (X_WORLD r, Y_WORLD r))
                ltac:(done) ltac:(done) ltac:(done) Hmatch Hcat) as Hpos.
  pose proof (match_keeps w expnum ccd catalog tbl HEALPIX
                ltac:(done) ltac:(done) ltac:(done) Hmatch Hcat) as Hpix.
  fold (positions (table catalog)) in Hpos. fold (positions (pixelate tbl)) in Hpos.
  rewrite positions_pixelate in Hpos.
  split; [done|].
  rewrite Hpix. unfold pixelate. rewrite map_map. done.
Qed.


End Columns.

Section Counting.

Context {Polygon : Type} {svc : Services Polygon}.
Implicit Types (w : World Polygon) (tbl : list Row).




End Counting.

(** ** More on the identifiers *)

Section Assigned.

Context {Polygon : Type} {svc : Services Polygon}.
Implicit Types (w : World Polygon) (tbl : list Row).












End Assigned.

Section Distinct.

Context {Polygon : Type} {svc : Services Polygon}.
Implicit Types (w : World Polygon) (tbl : list Row).




End Distinct.

(** ** More on what a run leaves alone *)

Section Untouched.

Context {Polygon : Type} {svc : Services Polygon}.
Implicit Types (w : World Polygon) (tbl : list Row).

(** X6 (the status of other tasks): [run] writes no status but that of its own
    task, exposure, version and chip. *)
Theorem run_other_statuses w expnum ccd prefix version dry_run force key :
  key ≠ (task, prefix, expnum, version, ccd) →
  statuses (run w expnum ccd prefix version dry_run force) !! key
  = statuses w !! key.
Proof.
  intros Hkey. unfold run.
  destruct (get_status w task prefix expnum version ccd && negb force); [done|].
  destruct (attempt w expnum ccd prefix) as [w1 [[]|e]] eqn:Hatt;
    apply attempt_frame in Hatt as (_ & _ & Hst).
  - destruct dry_run; simpl; [by rewrite Hst|].
    rewrite lookup_insert_ne by done. by rewrite Hst.
  - simpl. rewrite lookup_insert_ne by done. by rewrite Hst.
Qed.

Lemma put_pixel_other ds tbl w q w1 r pix :
  pix ≠ q → put_pixel ds tbl w q = (w1, r) → shards w1 !! pix = shards w !! pix.
Proof.
  intros Hne. unfold put_pixel.
  destruct (get_shard w q) as [hpx|ex]; [|destruct (is_ENOENT ex)];
    intros [= <- <-]; simpl; try done; by apply lookup_insert_ne.
Qed.

Lemma put_pixels_other ds tbl pixels pix : ∀ w w1 r,
  pix ∉ pixels → put_pixels ds tbl pixels w = (w1, r) →
  shards w1 !! pix = shards w !! pix.
Proof.
  induction pixels as [|q rest IH]; intros w w1 r Hnot; simpl.
  - by intros [= <- <-].
  - apply not_elem_of_cons in Hnot as [Hne Hnot].
    destruct (put_pixel ds tbl w q) as [w0 [[]|ex]] eqn:Hput;
      apply (put_pixel_other _ _ _ _ _ _ pix Hne) in Hput.
    + intros Hrest. by rewrite (IH _ _ _ Hnot Hrest).
    + by intros [= <- <-].
Qed.

Lemma stamp_HEALPIX ds mid tbl : map HEALPIX (stamp ds mid tbl) = map HEALPIX tbl.
Proof. unfold stamp. by rewrite !map_map. Qed.

(** X7 (the shards of other pixels): [run] leaves alone the shard of every
    pixel that holds no source of the exposure catalogue, in particular
    every shard when that catalogue cannot be retrieved. *)
Theorem run_other_pixels w expnum ccd prefix version dry_run force pix :
  (∀ tbl, get_catalog w expnum ccd = Ok tbl →
          pix ∉ map (λ r, skycoord_to_healpix (X_WORLD r) (Y_WORLD r)) tbl) →
  shards (run w expnum ccd prefix version dry_run force) !! pix
  = shards w !! pix.
Proof.
  intros Hpix.
  assert (∀ w1 r, attempt w expnum ccd prefix = (w1, r) →
            shards w1 !! pix = shards w !! pix) as Hatt.
  { intros w1 r. unfold attempt.
    destruct (unmet w prefix expnum ccd); [by intros [= <- <-]|].
    rewrite match_log.
    destruct (match_ w expnum ccd) as [catalog|e] eqn:Hmatch;
      [|by intros [= <- <-]].
    pose proof Hmatch as (_ & _ & tbl & _ & _ & _ & Hcat & _)%match_inv.
    destruct (match_keeps_columns w expnum ccd catalog tbl Hmatch Hcat) as [_ Hcol].
    unfold split_to_hpx.
    destruct (get_image _ _ _) as [image|e]; [|by intros [= <- <-]].
    destruct (mid_mjdate_of image) as [mid|e]; [|by intros [= <- <-]].
    intros Hput. eapply put_pixels_other in Hput; [exact Hput|].
    rewrite stamp_HEALPIX, unique_elem, Hcol. by apply Hpix. }
  unfold run.
  destruct (get_status w task prefix expnum version ccd && negb force); [done|].
  destruct (attempt w expnum ccd prefix) as [w1 r] eqn:Ha.
  specialize (Hatt _ _ eq_refl).
  destruct r as [[]|e]; [destruct dry_run|]; done.
Qed.

Lemma put_pixel_others ds tbl w q w1 r pix :
  shards_readable →
  Forall (λ s, dataset_name s = ds) tbl →
  put_pixel ds tbl w q = (w1, r) →
  filter (λ s, dataset_name s ≠ ds) (default [] (shards w1 !! pix))
  = filter (λ s, dataset_name s ≠ ds) (default [] (shards w !! pix)).
Proof.
  intros Hread Htbl%(rows_of_pixel_dataset ds q).
  assert (filter (λ s, dataset_name s ≠ ds) (rows_of_pixel q tbl) = []) as Hnone.
  { apply filter_none. eapply Forall_impl; [exact Htbl|]. simpl.
    intros s Hs Hne. done. }
  unfold put_pixel, get_shard, retrieve. rewrite (Hread q).
  destruct (shards w !! q) as [hpx|] eqn:Hq; simpl; intros [= <- <-]; simpl.
  - rewrite lookup_insert. case_decide as Heq; [|done]. subst pix.
    rewrite Hq. simpl. unfold merge. rewrite filter_app, Hnone, app_nil_r.
    apply filter_all. apply Forall_forall.
    intros s [Hs _]%list_elem_of_filter. done.
  - rewrite lookup_insert. case_decide as Heq; [|done]. subst pix.
    rewrite Hq. simpl. exact Hnone.
Qed.

Lemma put_pixels_others ds tbl pixels pix : ∀ w w1 r,
  shards_readable →
  Forall (λ s, dataset_name s = ds) tbl →
  put_pixels ds tbl pixels w = (w1, r) →
  filter (λ s, dataset_name s ≠ ds) (default [] (shards w1 !! pix))
  = filter (λ s, dataset_name s ≠ ds) (default [] (shards w !! pix)).
Proof.
  induction pixels as [|q rest IH]; intros w w1 r Hread Htbl; simpl.
  - by intros [= <- <-].
  - destruct (put_pixel ds tbl w q) as [w0 [[]|ex]] eqn:Hput;
      apply (put_pixel_others _ _ _ _ _ _ pix Hread Htbl) in Hput.
    + intros Hrest. by rewrite (IH _ _ _ Hread Htbl Hrest).
    + by intros [= <- <-].
Qed.

(** X8 (the rows of other datasets): when no shard retrieval fails for a
    reason of its own, [run] leaves in every shard the rows of the other
    datasets as they were, in the same order; it adds, replaces or drops
    only rows that carry the dataset name of its exposure and chip. *)
Theorem run_keeps_other_datasets w expnum ccd prefix version dry_run force pix :
  shards_readable →
  let ds := dataset_of expnum ccd in
  filter (λ s, dataset_name s ≠ ds)
         (default [] (shards (run w expnum ccd prefix version dry_run force) !! pix))
  = filter (λ s, dataset_name s ≠ ds) (default [] (shards w !! pix)).
Proof.
  intros Hread ds.
  assert (∀ w1 r, attempt w expnum ccd prefix = (w1, r) →
            filter (λ s, dataset_name s ≠ ds) (default [] (shards w1 !! pix))
            = filter (λ s, dataset_name s ≠ ds) (default [] (shards w !! pix)))
    as Hatt.
  { intros w1 r. unfold attempt.
    destruct (unmet w prefix expnum ccd); [by intros [= <- <-]|].
    rewrite match_log.
    destruct (match_ w expnum ccd) as [catalog|e] eqn:Hmatch;
      [|by intros [= <- <-]].
    pose proof Hmatch as (_ & _ & _ & _ & _ & _ & _ & _ & _ & ->)%match_inv.
    unfold split_to_hpx. simpl. fold (dataset_of expnum ccd). fold ds.
    destruct (get_image _ _ _) as [image|e]; [|by intros [= <- <-]].
    destruct (mid_mjdate_of image) as [mid|e]; [|by intros [= <- <-]].
    intros Hput.
    by apply (put_pixels_others _ _ _ pix _ _ _ Hread (stamp_dataset ds mid _)) in Hput. }
  unfold run.
  destruct (get_status w task prefix expnum version ccd && negb force); [done|].
  destruct (attempt w expnum ccd prefix) as [w1 r] eqn:Ha.
  specialize (Hatt _ _ eq_refl).
  destruct r as [[]|e]; [destruct dry_run|]; done.
Qed.

End Untouched.

(** ** More on [split_to_hpx] *)

Section Stored.

Context {Polygon : Type} {svc : Services Polygon}.
Implicit Types (w : World Polygon) (tbl : list Row).

Lemma rows_of_pixel_stamp ds mid pix tbl :
  rows_of_pixel pix (stamp ds mid tbl)
  = map (set_mid_mjdate mid) (map (set_dataset_name ds) (rows_of_pixel pix tbl)).
Proof.
  unfold stamp, rows_of_pixel.
  induction tbl as [|r t IH]; [done|]. simpl.
  rewrite !filter_cons. simpl.
  destruct (decide (HEALPIX r = pix)); simpl; by rewrite IH.
Qed.

(** X9 (where the rows go): after [split_to_hpx] has succeeded, the shard
    of every pixel of the catalogue exists, and its rows of the dataset are
    exactly the rows of the catalogue in that pixel, in catalogue order, each
    carrying the dataset name and the epoch of lines 64-65. *)
Theorem split_to_hpx_stores_rows w catalog w1 image mid pix :
  let ds := observation_dataset_name (observation catalog)
            +:+ version catalog +:+ str_int (ccd catalog) in
  split_to_hpx w catalog = (w1, Ok tt) →
  get_image w (observation catalog) (ccd catalog) = Ok image →
  mid_mjdate_of image = Ok mid →
  pix ∈ map HEALPIX (table catalog) →
  ∃ hpx, shards w1 !! pix = Some hpx
         ∧ dataset_rows ds hpx
           = map (set_mid_mjdate mid)
               (map (set_dataset_name ds) (rows_of_pixel pix (table catalog))).
Proof.
  intros ds. unfold split_to_hpx. fold ds.
  intros Hsplit Himage Hmid Hpix. rewrite Himage, Hmid in Hsplit.
  pose proof (put_pixels_shards _ _ _ _ _ (unique_NoDup _) Hsplit pix) as Hsh.
  rewrite unique_elem, stamp_HEALPIX in Hsh. specialize (Hsh Hpix).
  eexists. split; [exact Hsh|].
  rewrite (written_dataset_rows _ _ _ _ (stamp_dataset ds mid _)).
  apply rows_of_pixel_stamp.
Qed.

Lemma rows_of_pixel_without pix q tbl :
  pix ≠ q →
  rows_of_pixel pix (filter (λ r, HEALPIX r ≠ q) tbl) = rows_of_pixel pix tbl.
Proof.
  intros Hne. unfold rows_of_pixel.
  induction tbl as [|r t IH]; [done|].
  rewrite !filter_cons. repeat case_decide; simpl;
    rewrite ?filter_cons; repeat case_decide; try congruence; by rewrite IH.
Qed.

Lemma split_rows_permutation pixels : ∀ tbl,
  NoDup pixels →
  (∀ r, r ∈ tbl → HEALPIX r ∈ pixels) →
  concat (map (λ pix, rows_of_pixel pix tbl) pixels) ≡ₚ tbl.
Proof.
  induction pixels as [|q rest IH]; intros tbl Hnd Hall; simpl.
  - destruct tbl as [|r t]; [done|].
    by destruct (proj1 (elem_of_nil _) (Hall r (list_elem_of_here _ _))).
  - apply NoDup_cons in Hnd as [Hq Hnd].
    etrans; [|apply (filter_app_complement (λ r, HEALPIX r = q) tbl)].
    apply Permutation_app; [done|].
    assert (map (λ pix, rows_of_pixel pix tbl) rest
            = map (λ pix, rows_of_pixel pix (filter (λ r, HEALPIX r ≠ q) tbl)) rest)
      as ->.
    { apply map_ext_in. intros pix Hpix%list_elem_of_In. symmetry.
      apply rows_of_pixel_without. by intros ->. }
    apply IH; [done|].
    intros r [Hne Hr]%list_elem_of_filter.
    pose proof (Hall r Hr) as [Heq|Hin]%elem_of_cons; done.
Qed.

(** X10 (the split loses nothing): the tables lines 72 and 77 select for the
    pixels of [numpy.unique(catalog.table['HEALPIX'])], put end to end, are a
    rearrangement of the catalogue: every source goes to one pixel and to one
    only. *)
Theorem split_rows_partition tbl :
  concat (map (λ pix, rows_of_pixel pix tbl) (unique (map HEALPIX tbl))) ≡ₚ tbl.
Proof.
  apply split_rows_permutation; [apply unique_NoDup|].
  intros r Hr. apply unique_elem, list_elem_of_In, in_map.
  by apply list_elem_of_In.
Qed.

(** X11 (no rollback): when the retrieval of the shard of a pixel fails for
    another reason than absence, the pixel loop of [split_to_hpx] stops there
    with that exception: the shards it has put before stay put, and the
    pixels that follow are not touched. *)
Theorem put_pixels_stops ds tbl pre q rest w w1 e :
  put_pixels ds tbl pre w = (w1, Ok tt) →
  fault (AShard q) = Some e →
  is_ENOENT e = false →
  put_pixels ds tbl (pre ++ q :: rest) w = (w1, Raise e)
  ∧ events w1 = events w ++ map EvPut pre
  ∧ ∀ pix, pix ∉ pre → shards w1 !! pix = shards w !! pix.
Proof.
  intros Hpre Hfault Hother. split; [|split].
  - revert w Hpre. induction pre as [|p pre IH]; intros w; simpl.
    + intros [= <-]. unfold put_pixel, get_shard, retrieve.
      by rewrite Hfault, Hother.
    + destruct (put_pixel ds tbl w p) as [w0 [[]|ex]]; [|done]. apply IH.
  - by apply (put_pixels_events ds tbl).
  - intros pix Hpix. by eapply put_pixels_other.
Qed.

End Stored.

(** ** More on [run] and on [main] *)

Section Failures.

Context {Polygon : Type} {svc : Services Polygon}.
Implicit Types (w : World Polygon) (tbl : list Row).


(** X13 (the catalogue of the exposure itself): a failure to retrieve the
    catalogue of the exposure being matched ends the task, absence
    ([ENOENT]) as any other: [run] puts no shard and records the message of
    the exception as the status of the task.  Only candidates are skipped. *)
Theorem run_without_catalog w expnum ccd prefix version dry_run force
    image match_list e :
  get_status w task prefix expnum version ccd && negb force = false →
  unmet w prefix expnum ccd = false →
  get_image w expnum ccd = Ok image →
  cone_search (polygon image) (header_MJDATE image) = Ok match_list →
  get_catalog w expnum ccd = Raise e →
  let w' := run w expnum ccd prefix version dry_run force in
  statuses w' = <[(task, prefix, expnum, version, ccd) := str e]> (statuses w)
  ∧ shards w' = shards w
  ∧ events w' = events w ++ [EvMatch expnum ccd; EvSetStatus task (str e)].
Proof.
  intros Hskip Hmet Himage Hcone Hcat w'. subst w'.
  assert (match_ w expnum ccd = Raise e) as Hmatch.
  { unfold match_. rewrite Himage. simpl. rewrite Hcone. simpl.
    by rewrite Hcat. }
  unfold run, attempt. rewrite Hskip, Hmet, match_log, Hmatch. simpl.
  rewrite <- app_assoc. done.
Qed.






(** X15 (a batch already done): when every exposure and chip the cone search
    returns has success for status, [main] without [--force] changes nothing
    in the store, with [--dry-run] or without it: [--dry-run] does not imply
    [--force]. *)
Theorem main_all_done search w healpix dry_run overlaps :
  search healpix = Ok overlaps →
  forallb (λ o : string * Z, get_status w task "" o.1 "p" o.2) overlaps = true →
  main search w healpix dry_run false = (w, Ok 0).
Proof.
  intros Hsearch Hdone. unfold main. rewrite Hsearch. f_equal.
  clear Hsearch. unfold run_all.
  induction overlaps as [|o rest IH]; simpl; [done|].
  simpl in Hdone. apply andb_true_iff in Hdone as [Ho Hrest].
  unfold run at 2. rewrite Ho. simpl. by apply IH.
Qed.

End Failures.

(** ** The properties above on the scenarios *)






Lemma run_other_statuses_witness :
  let svc := demo [] no_fault None in
  let key := (task, "", "0999", "p", 1) in
  key ≠ (task, "", "1000", "p", 1)
  ∧ statuses (run (svc := svc) world_single "1000" 1 "" "p" false false) !! key
    = statuses world_single !! key.
Proof.
  intros svc key.
  assert (key ≠ (task, "", "1000", "p", 1)) as Hkey by (vm_compute; discriminate).
  split; [exact Hkey|].
  by apply (run_other_statuses (svc := svc)).
Defined.

Lemma run_other_pixels_witness :
  let svc := demo [] no_fault None in
  (∀ tbl, get_catalog (svc := svc) world_rerun "1000" 1 = Ok tbl →
          11 ∉ map (λ r, skycoord_to_healpix (X_WORLD r) (Y_WORLD r)) tbl)
  ∧ shards (run (svc := svc) world_rerun "1000" 1 "" "p" false false) !! 11
    = shards world_rerun !! 11.
Proof.
  intros svc.
  assert (∀ tbl, get_catalog (svc := svc) world_rerun "1000" 1 = Ok tbl →
            11 ∉ map (λ r, skycoord_to_healpix (X_WORLD r) (Y_WORLD r)) tbl)
    as Hpix.
  { intros tbl. vm_compute. intros [= <-].
    intros Hin. apply elem_of_cons in Hin as [[=]|Hin].
    by apply elem_of_nil in Hin. }
  split; [exact Hpix|].
  by apply (run_other_pixels (svc := svc)).
Defined.

Lemma run_keeps_other_datasets_witness :
  let svc := demo [] no_fault None in
  let w' := run (svc := svc) world_rerun "1000" 1 "" "p" false false in
  shards_readable (svc := svc)
  ∧ (map dataset_name <$> shards world_rerun !! 10) = Some ["999p1"; "1000p1"]
  ∧ (map dataset_name <$> shards w' !! 10) = Some ["999p1"; "1000p1"]
  ∧ filter (λ s, dataset_name s ≠ dataset_of (svc := svc) "1000" 1)
           (default [] (shards w' !! 10))
    = filter (λ s, dataset_name s ≠ dataset_of (svc := svc) "1000" 1)
             (default [] (shards world_rerun !! 10)).
Proof.
  intros svc w'.
  assert (shards_readable (svc := svc)) as Hread by (intros pix; reflexivity).
  split; [exact Hread|].
  split; [vm_compute; reflexivity|].
  split; [vm_compute; reflexivity|].
  by apply (run_keeps_other_datasets (svc := svc)).
Defined.

Lemma split_to_hpx_stores_rows_witness :
  let svc := demo [] no_fault None in
  let catalog :=
    mkFitsTable "4000" 1 "p"
      [mkRow (1099995 # 100000) 5 10 2 0 0 "" 0; mkRow (23 # 2) 5 11 3 0 0 "" 0] in
  let ds := "4000p1" in
  ∃ w1 image mid hpx,
    split_to_hpx (svc := svc) world_border catalog = (w1, Ok tt)
    ∧ get_image (svc := svc) world_border "4000" 1 = Ok image
    ∧ mid_mjdate_of image = Ok mid
    ∧ 11 ∈ map HEALPIX (table catalog)
    ∧ shards w1 !! 11 = Some hpx
    ∧ length hpx = 4%nat
    ∧ dataset_rows ds hpx
      = map (set_mid_mjdate mid)
          (map (set_dataset_name ds) (rows_of_pixel 11 (table catalog))).
Proof.
  intros svc catalog ds.
  destruct (split_to_hpx (svc := svc) world_border catalog) as [w1 r] eqn:Hsplit.
  assert (r = Ok tt) as -> by (vm_compute in Hsplit; congruence).
  assert (11 ∈ map HEALPIX (table catalog)) as Hpix.
  { simpl. apply list_elem_of_further, list_elem_of_here. }
  destruct (split_to_hpx_stores_rows (svc := svc) world_border catalog w1
              (mkImage (Some 57000%Q) (Some 864%Q) wide_box)
              (57000 + 864 / (24 # 1) / (3600 # 1))%Q 11 Hsplit)
    as (hpx & Hhpx & Hrows); [vm_compute; reflexivity|reflexivity|exact Hpix|].
  exists w1. eexists. eexists. exists hpx.
  split; [done|].
  split; [vm_compute; reflexivity|].
  split; [reflexivity|].
  split; [exact Hpix|].
  split; [exact Hhpx|].
  split; [|exact Hrows].
  vm_compute in Hsplit. injection Hsplit as <-.
  vm_compute in Hhpx. by injection Hhpx as <-.
Defined.

Lemma put_pixels_stops_witness :
  let svc := demo [] shard_fault None in
  let tbl := stamp "4000p1" 57000
               [mkRow (1099995 # 100000) 5 10 2 0 0 "" 0; mkRow (23 # 2) 5 11 3 0 0 "" 0;
                mkRow (25 # 2) 5 12 0 0 0 "" 0] in
  let e := OSError 5 "Input/output error" in
  ∃ w1,
    put_pixels (svc := svc) "4000p1" tbl [10] world_border = (w1, Ok tt)
    ∧ fault (Services := svc) (AShard 11) = Some e
    ∧ is_ENOENT e = false
    ∧ put_pixels (svc := svc) "4000p1" tbl ([10] ++ 11 :: [12]) world_border
      = (w1, Raise e)
    ∧ events w1 = events world_border ++ map EvPut [10]
    ∧ ∀ pix, pix ∉ [10] → shards w1 !! pix = shards world_border !! pix.
Proof.
  intros svc tbl e. eexists.
  split; [vm_compute; reflexivity|].
  split; [reflexivity|].
  split; [reflexivity|].
  apply (put_pixels_stops (svc := svc)).
  - vm_compute. reflexivity.
  - reflexivity.
  - reflexivity.
Defined.


Lemma run_without_catalog_witness :
  let svc := demo [] no_fault None in
  let w' := run (svc := svc) world_lacking "6001" 1 "" "p" false false in
  let e := OSError ENOENT "No such file or directory" in
  get_catalog (svc := svc) world_lacking "6001" 1 = Raise e
  ∧ str e = "[Errno 2] No such file or directory"
  ∧ statuses w' = <[(task, "", "6001", "p", 1) := str e]> (statuses world_lacking)
  ∧ shards w' = shards world_lacking
  ∧ events w' = events world_lacking
                ++ [EvMatch "6001" 1; EvSetStatus task (str e)].
Proof.
  intros svc w' e.
  split; [vm_compute; reflexivity|].
  split; [vm_compute; reflexivity|].
  eapply (run_without_catalog (svc := svc) world_lacking "6001" 1 "" "p" false false
            _ _ e).
  - vm_compute. reflexivity.
  - vm_compute. reflexivity.
  - vm_compute. reflexivity.
  - vm_compute. reflexivity.
  - vm_compute. reflexivity.
Defined.


Lemma main_all_done_witness :
  let svc := demo [] no_fault None in
  search_one [10] = Ok [("1000", 1)]
  ∧ forallb (λ o : string * Z, get_status world_done task "" o.1 "p" o.2)
      [("1000", 1)] = true
  ∧ main (svc := svc) search_one world_done [10] true false = (world_done, Ok 0).
Proof.
  intros svc.
  split; [reflexivity|].
  split; [vm_compute; reflexivity|].
  apply (main_all_done (svc := svc) search_one world_done [10] true [("1000", 1)]).
  - reflexivity.
  - vm_compute. reflexivity.
Defined.

Lemma split_to_hpx_rerun_witness :
  let svc := demo [] no_fault None in
  let catalog :=
    mkFitsTable "4000" 1 "p"
      [mkRow (1099995 # 100000) 5 10 2 0 0 "" 0; mkRow (23 # 2) 5 11 3 0 0 "" 0] in
  ∃ w1 w2,
    split_to_hpx (svc := svc) world_border catalog = (w1, Ok tt)
    ∧ split_to_hpx (svc := svc) w1 catalog = (w2, Ok tt)
    ∧ shards w2 = shards w1.
Proof.
  intros svc catalog.
  destruct (split_to_hpx (svc := svc) world_border catalog) as [w1 r] eqn:Hsplit.
  assert (r = Ok tt) as -> by (vm_compute in Hsplit; congruence).
  destruct (split_to_hpx_rerun (svc := svc) world_border catalog w1 Hsplit)
    as (w2 & Hagain & Hsame).
  by exists w1, w2.
Defined.
